(** * Snapshot/diff synchronisation of a package directory (main.py)

    A shallow embedding of the synchroniser plugin of the pypiserver
    App Engine example: [SynchronizerPlugin], the [ContentChangeEvent]
    family, [StorageClient], and the file store managers
    [StandardFileStoreManager] and [LocalFileStoreManager].

    Python objects with mutable fields live in an explicit store that is
    threaded through every method; a method either returns a value or
    raises, and in both cases the effects performed so far remain. *)

From Stdlib Require Import Ascii String.
From stdpp Require Import gmap strings list.

Open Scope string_scope.

(** ** Python values that flow through the program *)

(** The exceptions of the model are the instances of Python's [Exception]
    class, the ones an [except Exception] clause handles. *)
Inductive exn : Type :=
  | ValueError (msg : string)
  | NotImplementedError (msg : string)
  | OSError (msg : string)
  | OtherException (cls msg : string).

(** What a call does: it returns a value or raises. *)
Inductive outcome (A : Type) : Type :=
  | Return (a : A)
  | Raise (e : exn).
Arguments Return {A} a.
Arguments Raise {A} e.

Definition is_return {A} (o : outcome A) : bool :=
  match o with Return _ => true | Raise _ => false end.

(** The objects handed to the logger.  A format template is kept beside
    its arguments; the rendering done by [str.format] is not modelled. *)
Inductive pyval : Type :=
  | PStr (s : string)
  | PSet (s : gset string)
  | PBools (l : list bool)
  | PExn (e : exn).

Inductive level : Type := DEBUG | INFO | ERROR.

Record log_record : Type := LogRecord {
  lvl : level;
  template : string;
  args : list pyval
}.

(** A Python [set] is iterated in an order the program does not choose:
    some enumeration of its elements, each of them once. *)
Record set_order : Type := SetOrder {
  iter :> gset string → list string;
  iter_perm : ∀ s, iter s ≡ₚ elements s
}.

Definition elements_order : set_order :=
  {| iter := elements; iter_perm := λ s, reflexivity (elements s) |}.

(** [self._remote_directory.rstrip("/")]: drop the trailing slashes. *)
Fixpoint rstrip_slash (s : string) : string :=
  match s with
  | EmptyString => EmptyString
  | String c s' =>
      match rstrip_slash s' with
      | EmptyString => if Ascii.eqb c "/"%char then EmptyString else String c EmptyString
      | r => String c r
      end
  end.

(** Truth value of [self._current_local_contents]: [None] and the empty
    set are both false. *)
Definition truthy (v : option (gset string)) : bool :=
  match v with
  | None => false
  | Some s => negb (bool_decide (s = ∅))
  end.

(** ** The store and the monad of methods *)

Section Embedding.

(** The world outside the process: the local directory and the remote
    one (a directory or a bucket). *)
Context {W : Type}.

Record Store : Type := mkStore {
  world : W;
  (** records emitted through [LOGGER], oldest first *)
  logs : list log_record;
  (** the field [_current_local_contents] of the [StorageClient] *)
  current_local_contents : option (gset string)
}.

Definition M (A : Type) : Type := Store → outcome A * Store.

Definition ret {A} (a : A) : M A := λ st, (Return a, st).

Definition raise {A} (e : exn) : M A := λ st, (Raise e, st).

Definition bind {A B} (m : M A) (k : A → M B) : M B :=
  λ st, match m st with
        | (Return a, st') => k a st'
        | (Raise e, st') => (Raise e, st')
        end.

(** [try: m  except Exception as error: h error] *)
Definition try_except {A} (m : M A) (h : exn → M A) : M A :=
  λ st, match m st with
        | (Return a, st') => (Return a, st')
        | (Raise e, st') => h e st'
        end.

#[export] Instance M_ret : MRet M := @ret.
#[export] Instance M_bind : MBind M := λ A B k m, bind m k.

(** A list comprehension [[f x for x in l]]: the calls are made from left
    to right and the first one that raises ends the comprehension. *)
Fixpoint comprehension {A B} (f : A → M B) (l : list A) : M (list B) :=
  match l with
  | [] => ret []
  | x :: l' => b ← f x; bs ← comprehension f l'; ret (b :: bs)
  end.

Definition emit (r : log_record) : M unit :=
  λ st, (Return tt, mkStore (world st) (logs st ++ [r]) (current_local_contents st)).

Definition LOGGER_debug (t : string) (a : list pyval) : M unit := emit (LogRecord DEBUG t a).
Definition LOGGER_info (t : string) : M unit := emit (LogRecord INFO t []).
Definition LOGGER_error (e : exn) : M unit := emit (LogRecord ERROR "{}" [PExn e]).

(** A call into the operating system or a client library: it acts on the
    world only. *)
Definition syscall {A} (f : W → outcome A * W) : M A :=
  λ st, let '(o, w) := f (world st) in
        (o, mkStore w (logs st) (current_local_contents st)).

Definition read_snapshot : M (option (gset string)) :=
  λ st, (Return (current_local_contents st), st).

Definition write_snapshot (v : option (gset string)) : M unit :=
  λ st, (Return tt, mkStore (world st) (logs st) v).

(** ** File store managers *)

(** The methods a file store manager answers to.  [get_local_file_listing]
    is declared by the two concrete managers only. *)
Record Driver : Type := mkDriver {
  get_remote_file_names : M (gset string);
  get_local_file_listing : M (gset string);
  remove_from_remote : string → M bool;
  copy_from_remote : string → M bool;
  upload_to_remote : string → M bool
}.

Variable order : set_order.

(** [StandardFileStoreManager.pull_all_remote_files], inherited by every
    manager. *)
Definition pull_all_remote_files (d : Driver) : M (list bool) :=
  try_except
    (remote_files ← get_remote_file_names d;
     results ← comprehension (copy_from_remote d) (order remote_files);
     LOGGER_debug "{}" [PBools results] ;;
     ret results)
    (λ error, LOGGER_debug "{}" [PExn error] ;; raise error).

Definition sync_directory_path (remote_directory : string) : string :=
  rstrip_slash remote_directory.

Definition source_directory_path (local_directory : string) : string :=
  rstrip_slash local_directory.

Definition _get_remote_target_path (remote_directory file_name : string) : string :=
  sync_directory_path remote_directory +:+ "/" +:+ file_name.

Definition _get_local_target_path (local_directory file_name : string) : string :=
  source_directory_path local_directory +:+ "/" +:+ file_name.

(** The abstract manager: every operation is left to the subclasses. *)
Definition StandardFileStoreManager : Driver := {|
  get_remote_file_names :=
    raise (NotImplementedError "Subclasses must implement `get_remote_file_names`");
  get_local_file_listing :=
    raise (OtherException "AttributeError" "get_local_file_listing");
  remove_from_remote := λ _,
    raise (NotImplementedError "Subclasses must implement `remove_from_remote`");
  copy_from_remote := λ _,
    raise (NotImplementedError "Subclasses must implement `copy_from_remote`");
  upload_to_remote := λ _,
    raise (NotImplementedError "Subclasses must implement `upload_to_remote`")
|}.

(** The three library calls [LocalFileStoreManager] makes. *)
Record OS : Type := mkOS {
  os_listdir : string → W → outcome (list string) * W;
  shutil_copy : string → string → W → outcome unit * W;
  os_remove : string → W → outcome unit * W
}.

Variable os : OS.

Definition _copy_file (src trg : string) : M bool :=
  LOGGER_debug "{} -> {}" [PStr src; PStr trg] ;;
  try_except
    (syscall (shutil_copy os src trg) ;; ret true)
    (λ _, ret false).

Definition _remove_file (trg : string) : M bool :=
  LOGGER_debug "{} -> x" [PStr trg] ;;
  try_except
    (syscall (os_remove os trg) ;; ret true)
    (λ _, ret false).

Definition LocalFileStoreManager (local_directory remote_directory : string) : Driver := {|
  get_remote_file_names :=
    names ← syscall (os_listdir os (sync_directory_path remote_directory));
    let file_names : gset string := list_to_set names in
    LOGGER_debug "FILE NAMES" [] ;;
    LOGGER_debug "{}" [PSet file_names] ;;
    ret file_names;
  get_local_file_listing :=
    names ← syscall (os_listdir os (source_directory_path local_directory));
    ret (list_to_set names);
  remove_from_remote := λ file_name,
    _remove_file (_get_remote_target_path remote_directory file_name);
  copy_from_remote := λ file_name,
    _copy_file (_get_remote_target_path remote_directory file_name)
               (_get_local_target_path local_directory file_name);
  upload_to_remote := λ file_name,
    _copy_file (_get_local_target_path local_directory file_name)
               (_get_remote_target_path remote_directory file_name)
|}.

(** ** Change events *)

Definition REMOVAL : string := "removal".
Definition ADDITION : string := "addition".
Definition ANY : string := "n/a".

(** The base class and its two subclasses; the subclasses carry the file
    store manager they act through. *)
Inductive ContentChangeEvent : Type :=
  | BaseChangeEvent (difference : gset string)
  | RemovalChangeEvent (file_store_driver : Driver) (difference : gset string)
  | AdditionChangeEvent (file_store_driver : Driver) (difference : gset string).

Definition change_type (ev : ContentChangeEvent) : string :=
  match ev with
  | BaseChangeEvent _ => ANY
  | RemovalChangeEvent _ _ => REMOVAL
  | AdditionChangeEvent _ _ => ADDITION
  end.

Definition difference (ev : ContentChangeEvent) : gset string :=
  match ev with
  | BaseChangeEvent d | RemovalChangeEvent _ d | AdditionChangeEvent _ d => d
  end.

Definition handle (ev : ContentChangeEvent) (file_name : string) : M bool :=
  match ev with
  | BaseChangeEvent _ =>
      raise (NotImplementedError "Subclasses must implement a change handler")
  | RemovalChangeEvent d _ =>
      LOGGER_debug "Handling {} with difference: {}"
                   [PStr (change_type ev); PSet (difference ev)] ;;
      remove_from_remote d file_name
  | AdditionChangeEvent d _ =>
      LOGGER_debug "Handling {} with difference: {}"
                   [PStr (change_type ev); PSet (difference ev)] ;;
      upload_to_remote d file_name
  end.

Definition process (ev : ContentChangeEvent) : M bool :=
  try_except
    (results ← comprehension (handle ev) (order (difference ev));
     LOGGER_debug "Completed handling own type: {} with results: {}"
                  [PStr (change_type ev); PBools results] ;;
     ret true)
    (λ error, LOGGER_error error ;; ret false).

(** ** The storage client *)

(** The client object; its mutable field [_current_local_contents] is the
    store's [current_local_contents]. *)
Record StorageClient : Type := mkStorageClient {
  _file_storage : Driver
}.

Definition pull_remote_files (self : StorageClient) : M (list bool) :=
  pull_all_remote_files (_file_storage self).

Definition get_local_contents (self : StorageClient) : M (gset string) :=
  get_local_file_listing (_file_storage self).

Definition store_local_snapshot (self : StorageClient) : M unit :=
  contents ← get_local_contents self;
  write_snapshot (Some contents).

(** A value that passes the truth test is a set, so [default] never falls
    back here. *)
Definition get_last_local_snapshot (self : StorageClient) : M (gset string) :=
  v ← read_snapshot;
  if negb (truthy v)
  then raise (ValueError "Local snapshot have not been stored!")
  else ret (default ∅ v).

(** [get_change_events] is a generator function.  Calling it builds a
    generator object and runs none of the body; each [next] resumes the
    body up to the following [yield].  The frame records where the body
    is suspended and the local it still needs. *)
Inductive frame : Type :=
  | AtStart
  | AtFirstYield (addition_difference : gset string)
  | AtSecondYield
  | Finished.

Record generator : Type := mkGenerator {
  gen_self : StorageClient;
  gen_frame : frame
}.

Definition get_change_events (self : StorageClient) : M generator :=
  ret (mkGenerator self AtStart).

(** [next(g)]: [Some ev] for a yielded event, [None] for [StopIteration].
    A generator whose body raised is finished; the exception leaves
    through the [Raise] outcome. *)
Definition next (g : generator) : M (option ContentChangeEvent * generator) :=
  let self := gen_self g in
  match gen_frame g with
  | AtStart =>
      last_snapshot ← get_last_local_snapshot self;
      current_contents ← get_local_contents self;
      let removal_difference := last_snapshot ∖ current_contents in
      let addition_difference := current_contents ∖ last_snapshot in
      LOGGER_debug "last snapshot: {}" [PSet last_snapshot] ;;
      LOGGER_debug "current snapshot: {}" [PSet current_contents] ;;
      LOGGER_debug "removal difference: {}" [PSet removal_difference] ;;
      LOGGER_debug "addition difference: {}" [PSet addition_difference] ;;
      ret (Some (RemovalChangeEvent (_file_storage self) removal_difference),
           mkGenerator self (AtFirstYield addition_difference))
  | AtFirstYield addition_difference =>
      ret (Some (AdditionChangeEvent (_file_storage self) addition_difference),
           mkGenerator self AtSecondYield)
  | AtSecondYield => ret (None, mkGenerator self Finished)
  | Finished => ret (None, mkGenerator self Finished)
  end.

(** Number of [next] calls a loop makes before it sees [StopIteration]. *)
Definition calls_left (f : frame) : nat :=
  match f with
  | AtStart => 3
  | AtFirstYield _ => 2
  | AtSecondYield => 1
  | Finished => 1
  end.

(** [[body ev for ev in g]], with a bound [n] on the [next] calls. *)
Fixpoint iterate {B} (n : nat) (body : ContentChangeEvent → M B) (g : generator)
  : M (list B) :=
  match n with
  | 0 => ret []
  | S n' =>
      r ← next g;
      match r with
      | (None, _) => ret []
      | (Some ev, g') => b ← body ev; bs ← iterate n' body g'; ret (b :: bs)
      end
  end.

Definition for_in {B} (body : ContentChangeEvent → M B) (g : generator) : M (list B) :=
  iterate (calls_left (gen_frame g)) body g.

Definition client_upload_to_remote (self : StorageClient) (change_event : ContentChangeEvent)
  : M bool :=
  process change_event.

(** ** The plugin *)

Record SynchronizerPlugin : Type := mkSynchronizerPlugin {
  storage_client : StorageClient
}.

Definition sync_data_before_change (self : SynchronizerPlugin) : M unit :=
  LOGGER_info "Checking out newest remote state" ;;
  pull_remote_files (storage_client self) ;;
  store_local_snapshot (storage_client self) ;;
  contents ← get_local_contents (storage_client self);
  LOGGER_debug "{}" [PSet contents] ;;
  LOGGER_info "Ready to process!".

Definition sync_data_after_change (self : SynchronizerPlugin) : M unit :=
  LOGGER_info "Syncronizing data after request handling" ;;
  change_events ← get_change_events (storage_client self);
  result ← for_in (client_upload_to_remote (storage_client self)) change_events;
  LOGGER_debug "Handled events: {}" [PBools result] ;;
  LOGGER_info "Done!".

End Embedding.

Arguments Store : clear implicits.
Arguments OS : clear implicits.

(** ** Describing a run

    The relations below say, call by call, what a comprehension did; the
    theorems relate them to [comprehension]. *)

Section Runs.

Context {W : Type}.

(** The store after some more records were logged. *)
Definition logged (st : Store W) (rs : list log_record) : Store W :=
  mkStore (world st) (logs st ++ rs) (current_local_contents st).

(** Every call of [f] on the names of [l], made in turn from [st],
    returned; [bs] are the values and [st'] is the store at the end. *)
Inductive all_return {A B} (f : A → M B)
  : list A → Store W → list B → Store W → Prop :=
  | all_return_nil st : all_return f [] st [] st
  | all_return_cons x l st b st1 bs st' :
      f x st = (Return b, st1) →
      all_return f l st1 bs st' →
      all_return f (x :: l) st (b :: bs) st'.

(** Some call of [f] on a name of [l] raised [e], the calls before it
    having returned; [st'] is the store when it raised. *)
Inductive first_raise {A B} (f : A → M B)
  : list A → Store W → exn → Store W → Prop :=
  | first_raise_here x l st e st' :
      f x st = (Raise e, st') →
      first_raise f (x :: l) st e st'
  | first_raise_later x l st b st1 e st' :
      f x st = (Return b, st1) →
      first_raise f l st1 e st' →
      first_raise f (x :: l) st e st'.


(** The four debug records of [get_change_events]. *)
Definition diff_records (last_snapshot current_contents : gset string)
  : list log_record :=
  [ LogRecord DEBUG "last snapshot: {}" [PSet last_snapshot];
    LogRecord DEBUG "current snapshot: {}" [PSet current_contents];
    LogRecord DEBUG "removal difference: {}"
              [PSet (last_snapshot ∖ current_contents)];
    LogRecord DEBUG "addition difference: {}"
              [PSet (current_contents ∖ last_snapshot)] ].


End Runs.

(** ** A small file system for the examples

    Directories are named by their path and hold a set of file names;
    there are no nested directories, as in the flat layout the plugin
    synchronises. *)

Module Dirs.

Definition FileSystem : Type := gmap string (gset string).

(** Split [dir/name] at its last slash. *)
Fixpoint split_path (p : string) : option (string * string) :=
  match p with
  | EmptyString => None
  | String c p' =>
      match split_path p' with
      | Some (d, n) => Some (String c d, n)
      | None => if Ascii.eqb c "/"%char then Some (EmptyString, p') else None
      end
  end.

Definition has_file (fs : FileSystem) (p : string) : bool :=
  match split_path p with
  | Some (d, n) =>
      match fs !! d with
      | Some names => bool_decide (n ∈ names)
      | None => false
      end
  | None => false
  end.

Definition listdir (path : string) (fs : FileSystem) : outcome (list string) * FileSystem :=
  match fs !! path with
  | Some names => (Return (elements names), fs)
  | None => (Raise (OSError "No such file or directory"), fs)
  end.

Definition copy (src trg : string) (fs : FileSystem) : outcome unit * FileSystem :=
  if has_file fs src then
    match split_path trg with
    | Some (d, n) =>
        match fs !! d with
        | Some names => (Return tt, <[d := {[n]} ∪ names]> fs)
        | None => (Raise (OSError "No such file or directory"), fs)
        end
    | None => (Raise (OSError "No such file or directory"), fs)
    end
  else (Raise (OSError "No such file or directory"), fs).

Definition remove (trg : string) (fs : FileSystem) : outcome unit * FileSystem :=
  if has_file fs trg then
    match split_path trg with
    | Some (d, n) => (Return tt, alter (λ names, names ∖ {[n]}) d fs)
    | None => (Raise (OSError "No such file or directory"), fs)
    end
  else (Raise (OSError "No such file or directory"), fs).

Definition os : OS FileSystem :=
  {| os_listdir := listdir; shutil_copy := copy; os_remove := remove |}.

(** The manager of the development tier, with its default directories. *)
Definition driver : Driver :=
  LocalFileStoreManager os "./packages" "./.remote_packages".

Definition client : StorageClient := mkStorageClient driver.

Definition plugin : SynchronizerPlugin := mkSynchronizerPlugin client.

(** A process that has just started: nothing logged, no snapshot. *)
Definition fresh (fs : FileSystem) : Store FileSystem := mkStore fs [] None.

(** Both directories exist and are empty. *)
Definition empty_dirs : FileSystem :=
  {[ "./packages" := ∅; "./.remote_packages" := ∅ ]}.

(** An upload handled between the two hooks: a file appears locally. *)
Definition add_local (name : string) (st : Store FileSystem) : Store FileSystem :=
  mkStore (alter (λ names, {[name]} ∪ names) "./packages" (world st))
          (logs st) (current_local_contents st).


(** One package on each side. *)
Definition one_package : FileSystem :=
  {[ "./packages" := {[ "a-1.0.tar.gz" ]};
     "./.remote_packages" := {[ "a-1.0.tar.gz" ]} ]}.

End Dirs.

(** ** A driver that keeps a journal

    Its world is the list of the operations invoked on it, oldest first,
    each with the file name it was given. *)

Module Spy.

Definition journal : Type := list (string * string).

Definition invoked (op name : string) : M (W := journal) bool :=
  syscall (λ w : journal, (Return true, (w ++ [(op, name)])%list)).

Definition driver : Driver :=
  {| get_remote_file_names :=
       syscall (λ w : journal, (Return ∅, (w ++ [("get_remote_file_names", "")])%list));
     get_local_file_listing :=
       syscall (λ w : journal, (Return ∅, (w ++ [("get_local_file_listing", "")])%list));
     remove_from_remote := invoked "remove_from_remote";
     copy_from_remote := invoked "copy_from_remote";
     upload_to_remote := invoked "upload_to_remote" |}.

End Spy.

(** ** The bucket-backed manager *)

(** [name.split('/')]: the pieces between the slashes; the list is never
    empty. *)
Fixpoint split_slash (s : string) : list string :=
  match s with
  | EmptyString => [EmptyString]
  | String c s' =>
      if Ascii.eqb c "/"%char then EmptyString :: split_slash s'
      else match split_slash s' with
           | piece :: pieces => String c piece :: pieces
           | [] => [String c EmptyString]
           end
  end.

(** [get_name]: [x.name.split('/')[-1]] *)
Definition get_name (name : string) : string :=
  default EmptyString (last (split_slash name)).

(** [name.endswith("/")] *)
Fixpoint endswith_slash (s : string) : bool :=
  match s with
  | EmptyString => false
  | String c s' =>
      match s' with
      | EmptyString => Ascii.eqb c "/"%char
      | String _ _ => endswith_slash s'
      end
  end.

(** [is_file]: [not x.name.endswith("/")] *)
Definition is_file (name : string) : bool := negb (endswith_slash name).

Section CloudStorage.

Context {W : Type}.

(** The calls made on the [google.cloud.storage] client.  Blobs are
    known by their names; [list_blobs] takes the bucket name and the
    prefix, the blob operations take the bucket that [get_bucket] gave. *)
Record GCS : Type := mkGCS {
  bucket_handle : Type;
  list_blobs : string → string → W → outcome (list string) * W;
  get_bucket : string → W → outcome bucket_handle * W;
  download_to_filename : bucket_handle → string → string → W → outcome unit * W;
  upload_from_filename : bucket_handle → string → string → W → outcome unit * W;
  blob_delete : bucket_handle → string → W → outcome unit * W
}.

Variable os : OS W.
Variable gcs : GCS.
Variable _bucket_name : string.

(** The property [bucket]. *)
Definition bucket : M (bucket_handle gcs) :=
  syscall (get_bucket gcs _bucket_name).

Definition _download_file (src trg : string) : M bool :=
  LOGGER_debug "r: {} -> l: {}" [PStr src; PStr trg] ;;
  try_except
    (b ← bucket; syscall (download_to_filename gcs b src trg) ;; ret true)
    (λ _, ret false).

Definition _upload_file (src trg : string) : M bool :=
  LOGGER_debug "l: {} -> r: {}" [PStr src; PStr trg] ;;
  try_except
    (b ← bucket; syscall (upload_from_filename gcs b trg src) ;; ret true)
    (λ _, ret false).

Definition _remove_remote_file (trg : string) : M bool :=
  LOGGER_debug "{} -> x" [PStr trg] ;;
  try_except
    (b ← bucket; syscall (blob_delete gcs b trg) ;; ret true)
    (λ _, ret false).

Definition LocalToGoogleCloudStorageFileStoreManager
    (local_directory remote_directory : string) : Driver := {|
  get_remote_file_names :=
    blobs ← syscall (list_blobs gcs _bucket_name (sync_directory_path remote_directory));
    let file_names : gset string :=
      list_to_set (get_name <$> List.filter is_file blobs) in
    LOGGER_debug "{}" [PSet file_names] ;;
    ret file_names;
  get_local_file_listing :=
    names ← syscall (os_listdir os (source_directory_path local_directory));
    ret (list_to_set names);
  remove_from_remote := λ file_name,
    _remove_remote_file (_get_remote_target_path remote_directory file_name);
  copy_from_remote := λ file_name,
    _download_file (_get_remote_target_path remote_directory file_name)
                   (_get_local_target_path local_directory file_name);
  upload_to_remote := λ file_name,
    _upload_file (_get_local_target_path local_directory file_name)
                 (_get_remote_target_path remote_directory file_name)
|}.

(** ** Settings and configuration *)

(** [os.getenv(key, default)] *)
Definition getenv (environ : gmap string string) (key default : string) : string :=
  match environ !! key with
  | Some v => v
  | None => default
  end.

Definition DEV_TIER : string := "dev".

(** The class attributes of [GlobalSettings], computed from the
    environment when the module is loaded. *)
Record GlobalSettings : Type := mkGlobalSettings {
  TIER : string;
  RUNNING_DEV : bool;
  BUCKET_NAME : string;
  LOCAL_DIRECTORY : string;
  REMOTE_DIRECTORY : string
}.

Definition load_settings (environ : gmap string string) : GlobalSettings :=
  let tier := getenv environ "TIER" DEV_TIER in
  let running_dev := bool_decide (tier = DEV_TIER) in
  {| TIER := tier;
     RUNNING_DEV := running_dev;
     BUCKET_NAME := getenv environ "BUCKET_NAME" "YOUR-DEFAULT-BUCKET-NAME";
     LOCAL_DIRECTORY :=
       getenv environ "LOCAL_PACKAGE_DIRECTORY"
              (if running_dev then "./packages" else "/tmp");
     REMOTE_DIRECTORY :=
       getenv environ "REMOTE_PACKAGE_DIRECTORY"
              (if running_dev then "./.remote_packages" else "packages") |}.

End CloudStorage.

Arguments GCS : clear implicits.

(** [AppConfiguration.build_driver]: the manager class follows the tier,
    the bucket-backed one taking its bucket name from the settings. *)
Definition build_driver {W} (os : OS W) (gcs : GCS W) (settings : GlobalSettings)
  : Driver :=
  if RUNNING_DEV settings
  then LocalFileStoreManager os (LOCAL_DIRECTORY settings) (REMOTE_DIRECTORY settings)
  else LocalToGoogleCloudStorageFileStoreManager os gcs (BUCKET_NAME settings)
         (LOCAL_DIRECTORY settings) (REMOTE_DIRECTORY settings).

(** [AppConfiguration.build_plugin] *)
Definition build_plugin {W} (os : OS W) (gcs : GCS W) (settings : GlobalSettings)
  : SynchronizerPlugin :=
  mkSynchronizerPlugin (mkStorageClient (build_driver os gcs settings)).

(** ** Vocabulary for the properties of the managers *)

(** [n] slashes. *)
Fixpoint slashes (n : nat) : string :=
  match n with
  | 0 => EmptyString
  | S n' => String "/"%char (slashes n')
  end.

(** Does the string hold a slash? *)
Fixpoint has_slash (s : string) : bool :=
  match s with
  | EmptyString => false
  | String c s' => Ascii.eqb c "/"%char || has_slash s'
  end.

Section Frames.

Context {W : Type}.

(** A method that leaves the client's snapshot field alone. *)
Definition keeps_snapshot {A} (m : M (W := W) A) : Prop :=
  ∀ st, current_local_contents (m st).2 = current_local_contents st.

Definition driver_keeps_snapshot (d : Driver (W := W)) : Prop :=
  keeps_snapshot (get_remote_file_names d) ∧
  keeps_snapshot (get_local_file_listing d) ∧
  (∀ n, keeps_snapshot (remove_from_remote d n)) ∧
  (∀ n, keeps_snapshot (copy_from_remote d n)) ∧
  (∀ n, keeps_snapshot (upload_to_remote d n)).

(** A method that returns whatever the store is. *)
Definition never_raises {A} (m : M (W := W) A) : Prop :=
  ∀ st, is_return (m st).1 = true.

(** A manager whose per-file operations turn every failure into
    [False]. *)
Definition catches_all (d : Driver (W := W)) : Prop :=
  (∀ n, never_raises (remove_from_remote d n)) ∧
  (∀ n, never_raises (copy_from_remote d n)) ∧
  (∀ n, never_raises (upload_to_remote d n)).

(** One library call per name, in turn, each failure noted as [false]. *)
Fixpoint each_call (call : string → W → outcome unit * W)
    (names : list string) (w : W) : list bool * W :=
  match names with
  | [] => ([], w)
  | n :: ns =>
      let '(o, w1) := call n w in
      let '(bs, w2) := each_call call ns w1 in
      (is_return o :: bs, w2)
  end.

End Frames.

(** * Properties *)

Ltac run :=
  unfold mbind, M_bind, mret, M_ret, bind, ret, raise, try_except,
    LOGGER_debug, LOGGER_info, LOGGER_error, emit, syscall,
    read_snapshot, write_snapshot; simpl.

Section Properties.

Context {W : Type}.
Variable order : set_order.

Implicit Types (st : Store W) (d : Driver (W := W)) (self : StorageClient (W := W)).

Lemma order_empty : order ∅ = [].
Proof.
  apply Permutation_nil_r. rewrite iter_perm. by rewrite elements_empty.
Qed.

Lemma order_length (s : gset string) : length (order s) = size s.
Proof. by rewrite iter_perm. Qed.

(** ** Comprehensions *)

Lemma comprehension_cons {A B} (f : A → M (W := W) B) x l st :
  comprehension f (x :: l) st =
  match f x st with
  | (Return b, st1) =>
      match comprehension f l st1 with
      | (Return bs, st') => (Return (b :: bs), st')
      | (Raise e, st') => (Raise e, st')
      end
  | (Raise e, st1) => (Raise e, st1)
  end.
Proof.
  simpl. run. destruct (f x st) as [[b|e] st1]; [|done].
  by destruct (comprehension f l st1) as [[bs|e] st'].
Qed.

Lemma comprehension_all_return {A B} (f : A → M (W := W) B) l st bs st' :
  comprehension f l st = (Return bs, st') ↔ all_return f l st bs st'.
Proof.
  split.
  - revert st bs st'. induction l as [|x l IH]; intros st bs st'.
    + intros [= <- <-]. constructor.
    + rewrite comprehension_cons.
      destruct (f x st) as [[b|e] st1] eqn:Hx; [|done].
      destruct (comprehension f l st1) as [[bs1|e] st2] eqn:Hl; [|done].
      intros [= <- <-]. econstructor; eauto.
  - induction 1 as [|x l st b st1 bs st' Hx _ IH]; [done|].
    by rewrite comprehension_cons, Hx, IH.
Qed.

Lemma comprehension_first_raise {A B} (f : A → M (W := W) B) l st e st' :
  comprehension f l st = (Raise e, st') ↔ first_raise f l st e st'.
Proof.
  split.
  - revert st. induction l as [|x l IH]; intros st; [done|].
    rewrite comprehension_cons.
    destruct (f x st) as [[b|e1] st1] eqn:Hx.
    + destruct (comprehension f l st1) as [[bs1|e2] st2] eqn:Hl; [done|].
      intros [= <- <-]. eapply first_raise_later; eauto.
    + intros [= <- <-]. by apply first_raise_here.
  - induction 1 as [x l st e st' Hx|x l st b st1 e st' Hx _ IH];
      rewrite comprehension_cons, Hx; [done|by rewrite IH].
Qed.

Lemma all_return_length {A B} (f : A → M (W := W) B) l st bs st' :
  all_return f l st bs st' → length bs = length l.
Proof. induction 1; simpl; congruence. Qed.

(** ** Events *)

Lemma process_unfold (ev : ContentChangeEvent) st :
  process order ev st =
  match comprehension (handle ev) (order (difference ev)) st with
  | (Return results, st') =>
      (Return true,
       logged st' [LogRecord DEBUG "Completed handling own type: {} with results: {}"
                             [PStr (change_type ev); PBools results]])
  | (Raise error, st') =>
      (Return false, logged st' [LogRecord ERROR "{}" [PExn error]])
  end.
Proof.
  unfold process. run.
  by destruct (comprehension (handle ev) (order (difference ev)) st) as [[r|e] st'].
Qed.

(** C2. [process] never raises.  It returns [True] exactly when every
    per-name call of the event's handler returned, whatever booleans the
    driver gave back, and the results are logged at debug level; it
    returns [False] exactly when one of the per-name calls raised, and
    that exception is caught and logged at error level. *)
Theorem process_true_unless_a_call_raises (ev : ContentChangeEvent) st :
  ∃ (b : bool) st',
    process order ev st = (Return b, st') ∧
    (b = true ↔
       ∃ results st1,
         all_return (handle ev) (order (difference ev)) st results st1 ∧
         st' = logged st1
                 [LogRecord DEBUG "Completed handling own type: {} with results: {}"
                            [PStr (change_type ev); PBools results]]) ∧
    (b = false ↔
       ∃ error st1,
         first_raise (handle ev) (order (difference ev)) st error st1 ∧
         st' = logged st1 [LogRecord ERROR "{}" [PExn error]]).
Proof.
  rewrite process_unfold.
  destruct (comprehension (handle ev) (order (difference ev)) st)
    as [[results|error] st1] eqn:Hrun.
  - apply comprehension_all_return in Hrun as Hall.
    eexists true, _. split; [done|]. split.
    + split; [eauto|done].
    + split; [done|]. intros (e & st2 & Hraise & _).
      apply comprehension_first_raise in Hraise. congruence.
  - apply comprehension_first_raise in Hrun as Hraise.
    eexists false, _. split; [done|]. split.
    + split; [done|]. intros (r & st2 & Hall & _).
      apply comprehension_all_return in Hall. congruence.
    + split; [eauto|done].
Qed.

(** C9. For an event whose name set is empty, [process] returns [True]
    and leaves the store as it was but for its own debug record: the
    world, on which every driver operation acts, is untouched whatever
    the driver is. *)
Theorem process_empty_difference (ev : ContentChangeEvent) st :
  difference ev = ∅ →
  process order ev st =
    (Return true,
     logged st [LogRecord DEBUG "Completed handling own type: {} with results: {}"
                          [PStr (change_type ev); PBools []]]).
Proof.
  intros Hempty. by rewrite process_unfold, Hempty, order_empty.
Qed.


(** ** The stored snapshot *)

Lemma truthy_Some (s : gset string) : s ≠ ∅ → truthy (Some s) = true.
Proof. intros Hs. simpl. by rewrite bool_decide_eq_false_2. Qed.

Lemma get_last_local_snapshot_stored self st (s : gset string) :
  current_local_contents st = Some s → s ≠ ∅ →
  get_last_local_snapshot self st = (Return s, st).
Proof.
  intros Hst Hs. unfold get_last_local_snapshot. run.
  by rewrite Hst, truthy_Some.
Qed.

Lemma get_last_local_snapshot_none self st :
  current_local_contents st = None →
  get_last_local_snapshot self st =
    (Raise (ValueError "Local snapshot have not been stored!"), st).
Proof. intros Hst. unfold get_last_local_snapshot. run. by rewrite Hst. Qed.

Lemma get_last_local_snapshot_empty self st :
  current_local_contents st = Some ∅ →
  get_last_local_snapshot self st =
    (Raise (ValueError "Local snapshot have not been stored!"), st).
Proof. intros Hst. unfold get_last_local_snapshot. run. by rewrite Hst. Qed.

Lemma store_local_snapshot_stores self st (contents : gset string) st1 :
  get_local_file_listing (_file_storage self) st = (Return contents, st1) →
  store_local_snapshot self st =
    (Return tt, mkStore (world st1) (logs st1) (Some contents)).
Proof.
  intros Hls. unfold store_local_snapshot, get_local_contents. run.
  by rewrite Hls.
Qed.

(** ** The generator of change events *)

Lemma next_at_start self st (s contents : gset string) st1 :
  current_local_contents st = Some s → s ≠ ∅ →
  get_local_file_listing (_file_storage self) st = (Return contents, st1) →
  next (mkGenerator self AtStart) st =
    (Return (Some (RemovalChangeEvent (_file_storage self) (s ∖ contents)),
             mkGenerator self (AtFirstYield (contents ∖ s))),
     logged st1 (diff_records s contents)).
Proof.
  intros Hst Hs Hls. unfold next. simpl. unfold mbind, M_bind, bind at 1.
  rewrite (get_last_local_snapshot_stored _ _ _ Hst Hs).
  unfold get_local_contents. unfold bind at 1. rewrite Hls. run.
  unfold logged, diff_records. by rewrite <- !app_assoc.
Qed.

Lemma next_at_start_listing_raises self st (s : gset string) e st1 :
  current_local_contents st = Some s → s ≠ ∅ →
  get_local_file_listing (_file_storage self) st = (Raise e, st1) →
  next (mkGenerator self AtStart) st = (Raise e, st1).
Proof.
  intros Hst Hs Hls. unfold next. simpl. unfold mbind, M_bind, bind at 1.
  rewrite (get_last_local_snapshot_stored _ _ _ Hst Hs).
  unfold get_local_contents. unfold bind at 1. by rewrite Hls.
Qed.

Lemma next_at_start_unstored self st :
  truthy (current_local_contents st) = false →
  next (mkGenerator self AtStart) st =
    (Raise (ValueError "Local snapshot have not been stored!"), st).
Proof.
  intros Hst. unfold next, get_last_local_snapshot. run. by rewrite Hst.
Qed.

Lemma next_decreases g st ev g' st' :
  next g st = (Return (Some ev, g'), st') →
  (calls_left (gen_frame g') < calls_left (gen_frame g))%nat.
Proof.
  destruct g as [self fr]. destruct fr; unfold next; simpl.
  - run. destruct (get_last_local_snapshot self st) as [[s|e] st1]; [|done].
    destruct (get_local_contents self st1) as [[c|e] st2]; [|done].
    intros [= _ <- _]. simpl. lia.
  - intros [= _ <- _]. simpl. lia.
  - done.
  - done.
Qed.

Lemma calls_left_pos (fr : frame) : (0 < calls_left fr)%nat.
Proof. destruct fr; simpl; lia. Qed.

Lemma iterate_S {B} (body : ContentChangeEvent → M (W := W) B) (n : nat) g st :
  iterate (S n) body g st =
  match next g st with
  | (Return (Some ev, g'), st1) =>
      match body ev st1 with
      | (Return b, st2) =>
          match iterate n body g' st2 with
          | (Return bs, st3) => (Return (b :: bs), st3)
          | (Raise e, st3) => (Raise e, st3)
          end
      | (Raise e, st2) => (Raise e, st2)
      end
  | (Return (None, _), st1) => (Return [], st1)
  | (Raise e, st1) => (Raise e, st1)
  end.
Proof.
  cbn [iterate]. unfold mbind, M_bind, bind.
  destruct (next g st) as [[[[ev|] g']|e] st1]; [|done..].
  destruct (body ev st1) as [[b|e] st2]; [|done].
  by destruct (iterate n body g' st2) as [[bs|e] st3].
Qed.

(** A loop over the generator makes at most [calls_left] calls of [next]:
    a larger bound changes nothing. *)
Lemma iterate_stable {B} (body : ContentChangeEvent → M (W := W) B) (n m : nat) g st :
  (calls_left (gen_frame g) ≤ n)%nat → (calls_left (gen_frame g) ≤ m)%nat →
  iterate n body g st = iterate m body g st.
Proof.
  revert m g st. induction n as [|n IH]; intros m g st Hn Hm.
  { pose proof (calls_left_pos (gen_frame g)). lia. }
  destruct m as [|m]; [pose proof (calls_left_pos (gen_frame g)); lia|].
  rewrite !iterate_S.
  destruct (next g st) as [[[[ev|] g']|e] st1] eqn:Hnext; [|done..].
  apply next_decreases in Hnext.
  destruct (body ev st1) as [[b|e] st2]; [|done].
  by rewrite (IH m g' st2) by lia.
Qed.

Lemma iterate_enough {B} (body : ContentChangeEvent → M (W := W) B) (n : nat) g st :
  (calls_left (gen_frame g) ≤ n)%nat →
  iterate n body g st = for_in body g st.
Proof. intros Hn. unfold for_in. by apply iterate_stable. Qed.

(** Draining a fresh generator with a body that cannot raise. *)
Lemma for_in_at_start {B} (body : ContentChangeEvent → M (W := W) B)
    self st (s contents : gset string) st1 b1 st2 b2 st3 :
  current_local_contents st = Some s → s ≠ ∅ →
  get_local_file_listing (_file_storage self) st = (Return contents, st1) →
  body (RemovalChangeEvent (_file_storage self) (s ∖ contents))
       (logged st1 (diff_records s contents)) = (Return b1, st2) →
  body (AdditionChangeEvent (_file_storage self) (contents ∖ s)) st2 = (Return b2, st3) →
  for_in body (mkGenerator self AtStart) st = (Return [b1; b2], st3).
Proof.
  intros Hst Hs Hls H1 H2. unfold for_in. simpl calls_left.
  cbn [iterate]. unfold mbind, M_bind. unfold bind at 1.
  rewrite (next_at_start _ _ _ _ _ Hst Hs Hls).
  unfold bind at 1. rewrite H1. unfold bind at 1. unfold bind at 1.
  simpl next. run. by rewrite H2.
Qed.

Lemma for_in_unstored {B} (body : ContentChangeEvent → M (W := W) B) self st :
  truthy (current_local_contents st) = false →
  for_in body (mkGenerator self AtStart) st =
    (Raise (ValueError "Local snapshot have not been stored!"), st).
Proof.
  intros Hst. unfold for_in. simpl calls_left. cbn [iterate].
  unfold mbind, M_bind. unfold bind at 1.
  by rewrite (next_at_start_unstored _ _ Hst).
Qed.

Lemma for_in_listing_raises {B} (body : ContentChangeEvent → M (W := W) B)
    self st (s : gset string) e st1 :
  current_local_contents st = Some s → s ≠ ∅ →
  get_local_file_listing (_file_storage self) st = (Raise e, st1) →
  for_in body (mkGenerator self AtStart) st = (Raise e, st1).
Proof.
  intros Hst Hs Hls. unfold for_in. simpl calls_left. cbn [iterate].
  unfold mbind, M_bind. unfold bind at 1.
  by rewrite (next_at_start_listing_raises _ _ _ _ _ Hst Hs Hls).
Qed.


(** C10. [get_change_events] is lazy.  The call itself returns a generator
    and touches nothing, also when no snapshot is stored; the
    [ValueError] comes out of the first [next].  The test is made then
    and not at the call: if a snapshot is stored in between, the same
    generator yields its first event. *)
Theorem get_change_events_lazy self (w : W) (l : list log_record) :
  let st := mkStore w l None in
  ∃ g,
    get_change_events self st = (Return g, st) ∧
    next g st = (Raise (ValueError "Local snapshot have not been stored!"), st) ∧
    ∀ st' (s contents : gset string) st1,
      current_local_contents st' = Some s → s ≠ ∅ →
      get_local_file_listing (_file_storage self) st' = (Return contents, st1) →
      ∃ g', next g st' =
              (Return (Some (RemovalChangeEvent (_file_storage self) (s ∖ contents)), g'),
               logged st1 (diff_records s contents)).
Proof.
  intros st. exists (mkGenerator self AtStart). split; [done|]. split.
  - by apply next_at_start_unstored.
  - intros st' s contents st1 Hst Hs Hls. eexists.
    by apply next_at_start.
Qed.

(** ** The two hooks *)

Lemma sync_data_after_change_unfold (self : SynchronizerPlugin) st :
  sync_data_after_change order self st =
  match for_in (client_upload_to_remote order (storage_client self))
               (mkGenerator (storage_client self) AtStart)
               (logged st [LogRecord INFO "Syncronizing data after request handling" []])
  with
  | (Return result, st') =>
      (Return tt,
       logged st' [LogRecord DEBUG "Handled events: {}" [PBools result];
                   LogRecord INFO "Done!" []])
  | (Raise e, st') => (Raise e, st')
  end.
Proof.
  unfold sync_data_after_change, get_change_events.
  unfold mbind, M_bind, LOGGER_info, LOGGER_debug, emit.
  unfold bind at 1. unfold bind at 1. unfold ret at 1. unfold bind at 1.
  fold (logged st [LogRecord INFO "Syncronizing data after request handling" []]).
  destruct (for_in _ _ _) as [[result|e] st']; [|done].
  unfold bind, logged. simpl. by rewrite <- app_assoc.
Qed.



(** ** Pulling the remote files *)

Variable os : OS W.




Lemma pull_all_remote_files_unfold (d : Driver) st :
  pull_all_remote_files order d st =
  match get_remote_file_names d st with
  | (Return remote_files, st1) =>
      match comprehension (copy_from_remote d) (order remote_files) st1 with
      | (Return results, st2) =>
          (Return results, logged st2 [LogRecord DEBUG "{}" [PBools results]])
      | (Raise e, st2) => (Raise e, logged st2 [LogRecord DEBUG "{}" [PExn e]])
      end
  | (Raise e, st1) => (Raise e, logged st1 [LogRecord DEBUG "{}" [PExn e]])
  end.
Proof.
  unfold pull_all_remote_files. run.
  destruct (get_remote_file_names d st) as [[names|e] st1]; [|done].
  by destruct (comprehension (copy_from_remote d) (order names) st1)
    as [[results|e] st2].
Qed.



End Properties.

(** * The differences of two listings *)

Lemma difference_sets (s c : gset string) :
  (s ∖ c) ## (c ∖ s) ∧ (s ∖ (s ∖ c)) ∪ (c ∖ s) = c.
Proof.
  split.
  - intros x. rewrite !elem_of_difference. tauto.
  - apply set_eq. intros x.
    rewrite elem_of_union, !elem_of_difference.
    destruct (decide (x ∈ s)), (decide (x ∈ c)); tauto.
Qed.

(** With a stored, non-empty snapshot [s] and a local listing [c] that
    answers, a loop over [get_change_events] sees two events: the removal
    of [s ∖ c], then the addition of [c ∖ s]. *)
Lemma change_events_of_stored_snapshot {W} (self : StorageClient (W := W))
    (st : Store W) (s c : gset string) st1 :
  current_local_contents st = Some s → s ≠ ∅ →
  get_local_file_listing (_file_storage self) st = (Return c, st1) →
  for_in ret (mkGenerator self AtStart) st =
    (Return [RemovalChangeEvent (_file_storage self) (s ∖ c);
             AdditionChangeEvent (_file_storage self) (c ∖ s)],
     logged st1 (diff_records s c)).
Proof.
  intros Hst Hs Hls. by eapply for_in_at_start.
Qed.

(** When the listing is the stored snapshot, both differences are empty. *)
Lemma change_events_of_unchanged_listing {W} (self : StorageClient (W := W))
    (st : Store W) (s : gset string) st1 :
  current_local_contents st = Some s → s ≠ ∅ →
  get_local_file_listing (_file_storage self) st = (Return s, st1) →
  for_in ret (mkGenerator self AtStart) st =
    (Return [RemovalChangeEvent (_file_storage self) ∅;
             AdditionChangeEvent (_file_storage self) ∅],
     logged st1 (diff_records s s)).
Proof.
  intros Hst Hs Hls.
  rewrite (change_events_of_stored_snapshot self st s s st1 Hst Hs Hls).
  by rewrite difference_diag_L.
Qed.

(** * An empty package directory

    The development tier starts with two empty directories.  The snapshot
    taken there is the empty set, which the truth test of
    [get_last_local_snapshot] does not tell from [None]. *)

(** C3. [store_local_snapshot] was called and stored the empty listing,
    and [get_last_local_snapshot] raises the [ValueError] of a snapshot
    that was never stored instead of returning it. *)
Theorem stored_empty_snapshot_is_not_returned :
  let st1 := (store_local_snapshot Dirs.client (Dirs.fresh Dirs.empty_dirs)).2 in
  (store_local_snapshot Dirs.client (Dirs.fresh Dirs.empty_dirs)).1 = Return tt ∧
  current_local_contents st1 = Some ∅ ∧
  (get_last_local_snapshot Dirs.client st1).1 =
    Raise (ValueError "Local snapshot have not been stored!").
Proof. vm_compute. done. Qed.

(** C1. With the stored snapshot [∅] and the current listing
    [{a-1.0.tar.gz}], the removal set [∅] and the addition set
    [{a-1.0.tar.gz}] are not produced: the first [next] raises. *)
Theorem differences_of_empty_snapshot_are_not_produced :
  let st1 := (store_local_snapshot Dirs.client (Dirs.fresh Dirs.empty_dirs)).2 in
  let st2 := Dirs.add_local "a-1.0.tar.gz" st1 in
  current_local_contents st2 = Some ∅ ∧
  (get_local_contents Dirs.client st2).1 = Return {[ "a-1.0.tar.gz" ]} ∧
  ((g ← get_change_events Dirs.client; next g) st2).1 =
    Raise (ValueError "Local snapshot have not been stored!").
Proof. vm_compute. done. Qed.

(** C4. With the stored snapshot [∅] a loop over [get_change_events]
    receives no event at all, where two were due. *)
Theorem no_event_after_empty_snapshot :
  let st1 := (store_local_snapshot Dirs.client (Dirs.fresh Dirs.empty_dirs)).2 in
  let st2 := Dirs.add_local "a-1.0.tar.gz" st1 in
  ((g ← get_change_events Dirs.client; for_in ret g) st2).1 =
    Raise (ValueError "Local snapshot have not been stored!") ∧
  ((g ← get_change_events Dirs.client; for_in ret g) st2).2 = st2.
Proof. vm_compute. done. Qed.

(** C8. Capturing the snapshot of an empty directory and computing the
    change events while it is still empty does not yield two empty
    differences: it raises, and so does a whole cycle of the two hooks. *)
Theorem unchanged_empty_listing_raises :
  ((store_local_snapshot Dirs.client ;;
    g ← get_change_events Dirs.client; for_in ret g)
     (Dirs.fresh Dirs.empty_dirs)).1 =
    Raise (ValueError "Local snapshot have not been stored!") ∧
  ((sync_data_before_change elements_order Dirs.plugin ;;
    sync_data_after_change elements_order Dirs.plugin)
     (Dirs.fresh Dirs.empty_dirs)).1 =
    Raise (ValueError "Local snapshot have not been stored!").
Proof. vm_compute. done. Qed.

(** * Concrete runs *)

(** C9, on the journal-keeping driver: processing an event with an empty
    name set returns [True] and the journal of invoked operations stays
    empty. *)
Lemma process_empty_difference_witness :
  difference (RemovalChangeEvent Spy.driver ∅) = ∅ ∧
  (process elements_order (RemovalChangeEvent Spy.driver ∅) (mkStore [] [] None)).1 =
    Return true ∧
  world (process elements_order (RemovalChangeEvent Spy.driver ∅) (mkStore [] [] None)).2 =
    [].
Proof.
  split; [reflexivity|].
  rewrite (process_empty_difference elements_order
             (RemovalChangeEvent Spy.driver ∅) (mkStore [] [] None));
    [split; reflexivity | reflexivity].
Defined.

(** On a non-empty name set the journal does record the calls. *)
Example process_journal :
  world (process elements_order (AdditionChangeEvent Spy.driver {[ "c" ]})
           (mkStore [] [] None)).2 = [("upload_to_remote", "c")].
Proof. vm_compute. done. Qed.

(** A driver result of [False] does not make [process] fail: removing a
    file the remote directory does not hold. *)
Example process_true_despite_false_result :
  (remove_from_remote Dirs.driver "b" (Dirs.fresh Dirs.one_package)).1 = Return false ∧
  (process elements_order (RemovalChangeEvent Dirs.driver {[ "b" ]})
     (Dirs.fresh Dirs.one_package)).1 = Return true.
Proof. vm_compute. done. Qed.

(** A raising handler makes the whole event report [False]. *)
Example process_false_when_handler_raises :
  (process elements_order (AdditionChangeEvent StandardFileStoreManager {[ "b" ]})
     (Dirs.fresh Dirs.one_package)).1 = Return false.
Proof. vm_compute. done. Qed.



(** A cycle of the two hooks around an upload: the new file reaches the
    remote directory. *)
Example upload_reaches_remote :
  let upload : M unit := λ st, (Return tt, Dirs.add_local "c-2.0.tar.gz" st) in
  world ((sync_data_before_change elements_order Dirs.plugin ;;
          upload ;;
          sync_data_after_change elements_order Dirs.plugin)
           (Dirs.fresh Dirs.one_package)).2 !! "./.remote_packages" =
    Some {[ "a-1.0.tar.gz"; "c-2.0.tar.gz" ]}.
Proof. vm_compute. done. Qed.

(** * Paths and blob names *)

#[local] Arguments append !_ _ / : simpl nomatch.

Lemma append_empty_r (s : string) : s +:+ "" = s.
Proof. induction s as [|c s IH]; simpl; [done|]. by rewrite IH. Qed.

Lemma append_assoc (s t u : string) : (s +:+ t) +:+ u = s +:+ (t +:+ u).
Proof. induction s as [|c s IH]; simpl; [done|]. by rewrite IH. Qed.

Lemma append_inj_r (s t u : string) : s +:+ t = s +:+ u → t = u.
Proof. induction s as [|c s IH]; simpl; [done|]. intros [= H]. by apply IH. Qed.

Lemma slashes_app (n m : nat) : slashes n +:+ slashes m = slashes (n + m).
Proof. induction n as [|n IH]; simpl; [done|]. by rewrite IH. Qed.

Lemma rstrip_slash_slashes (n : nat) : rstrip_slash (slashes n) = "".
Proof. induction n as [|n IH]; simpl; [done|]. by rewrite IH. Qed.

Lemma rstrip_slash_app_slashes (s : string) (n : nat) :
  rstrip_slash (s +:+ slashes n) = rstrip_slash s.
Proof.
  induction s as [|c s IH]; simpl.
  - apply rstrip_slash_slashes.
  - by rewrite IH.
Qed.

(** X1. [rstrip("/")] removes exactly the trailing slashes: the string is
    its result followed by slashes only, and the result does not end with
    a slash. *)
Theorem rstrip_slash_spec (s : string) :
  ∃ n : nat, s = rstrip_slash s +:+ slashes n ∧
             endswith_slash (rstrip_slash s) = false.
Proof.
  induction s as [|c s (n & Hs & Hend)].
  - by exists 0%nat.
  - simpl. destruct (rstrip_slash s) as [|a r] eqn:Hr.
    + simpl in Hs. destruct (Ascii.eqb_spec c "/"%char) as [->|Hc].
      * exists (S n). simpl. by rewrite <- Hs.
      * exists n. simpl. rewrite <- Hs. split; [done|].
        by apply Ascii.eqb_neq.
    + exists n. split; [by rewrite Hs at 1|]. done.
Qed.

Lemma rstrip_slash_idempotent (s : string) :
  rstrip_slash (rstrip_slash s) = rstrip_slash s.
Proof.
  induction s as [|c s IH]; [done|]. simpl.
  destruct (rstrip_slash s) as [|a r] eqn:Hr.
  - destruct (Ascii.eqb c "/"%char) eqn:Hc; [done|]. simpl. by rewrite Hc.
  - change (rstrip_slash (String c (String a r)))
      with (match rstrip_slash (String a r) with
            | EmptyString =>
                if Ascii.eqb c "/"%char then EmptyString else String c EmptyString
            | r' => String c r'
            end).
    by rewrite IH.
Qed.

(** X2. Trailing slashes on a configured directory do not matter: the
    stripped directory and both target paths are the same with and
    without them, and stripping twice is stripping once. *)
Theorem target_paths_ignore_trailing_slashes (directory file_name : string) (n : nat) :
  sync_directory_path (directory +:+ slashes n) = sync_directory_path directory ∧
  _get_remote_target_path (directory +:+ slashes n) file_name =
    _get_remote_target_path directory file_name ∧
  _get_local_target_path (directory +:+ slashes n) file_name =
    _get_local_target_path directory file_name ∧
  rstrip_slash (rstrip_slash directory) = rstrip_slash directory.
Proof.
  unfold _get_remote_target_path, _get_local_target_path,
    sync_directory_path, source_directory_path.
  rewrite rstrip_slash_app_slashes. repeat split.
  apply rstrip_slash_idempotent.
Qed.

(** X3. Under one directory, two file names have the same target path
    only if they are the same name. *)
Theorem target_path_injective (directory f1 f2 : string) :
  (_get_remote_target_path directory f1 = _get_remote_target_path directory f2 ↔ f1 = f2) ∧
  (_get_local_target_path directory f1 = _get_local_target_path directory f2 ↔ f1 = f2).
Proof.
  unfold _get_remote_target_path, _get_local_target_path.
  split; (split; [|by intros ->]); intros H;
    apply append_inj_r in H; by injection H.
Qed.

Lemma split_slash_nonempty (s : string) : split_slash s ≠ [].
Proof.
  destruct s as [|c s]; simpl; [done|].
  destruct (Ascii.eqb c "/"%char); [done|]. by destruct (split_slash s).
Qed.

Lemma split_slash_no_slash (s : string) :
  has_slash s = false → split_slash s = [s].
Proof.
  induction s as [|c s IH]; simpl; [done|].
  destruct (Ascii.eqb c "/"%char); simpl; [done|].
  intros Hs. by rewrite (IH Hs).
Qed.

Lemma split_slash_has_slash (s : string) :
  has_slash s = true → ∃ piece next pieces, split_slash s = piece :: next :: pieces.
Proof.
  induction s as [|c s IH]; simpl; [done|].
  destruct (Ascii.eqb c "/"%char); simpl.
  - intros _. destruct (split_slash s) as [|h t] eqn:Hsp.
    + by destruct (split_slash_nonempty s).
    + eauto.
  - intros Hs. destruct (IH Hs) as (h & x & t & ->). eauto.
Qed.

Lemma split_slash_app (p n : string) :
  split_slash (p +:+ String "/"%char n) = (split_slash p ++ split_slash n)%list.
Proof.
  induction p as [|c p IH]; simpl; [done|].
  destruct (Ascii.eqb c "/"%char); simpl.
  - by rewrite IH.
  - rewrite IH. destruct (split_slash p) as [|h t] eqn:Hsp; [|done].
    by destruct (split_slash_nonempty p).
Qed.

Lemma get_name_cons (c : ascii) (s : string) :
  get_name (String c s) =
    if Ascii.eqb c "/"%char || has_slash s then get_name s else String c s.
Proof.
  unfold get_name. simpl. destruct (Ascii.eqb c "/"%char); simpl.
  - destruct (split_slash s) as [|h t] eqn:Hsp; [|done].
    by destruct (split_slash_nonempty s).
  - destruct (has_slash s) eqn:Hs.
    + by destruct (split_slash_has_slash s Hs) as (h & x & t & ->).
    + by rewrite (split_slash_no_slash s Hs).
Qed.

Lemma get_name_no_slash (s : string) : has_slash (get_name s) = false.
Proof.
  induction s as [|c s IH]; [done|]. rewrite get_name_cons.
  destruct (Ascii.eqb c "/"%char) eqn:Hc; simpl; [done|].
  destruct (has_slash s) eqn:Hs; [done|]. simpl. by rewrite Hc, Hs.
Qed.

Lemma endswith_slash_cons (c : ascii) (s : string) :
  s ≠ "" → endswith_slash (String c s) = endswith_slash s.
Proof. by destruct s. Qed.

Lemma endswith_slash_nonempty (s : string) : endswith_slash s = true → s ≠ "".
Proof. by destruct s. Qed.

(** X4. [get_name] is the part of a blob name after its last slash: the
    name is a prefix, empty or ending with a slash, followed by
    [get_name] of it, and [get_name] of it holds no slash.  Joining the
    pieces of [split('/')] with slashes gives the name back. *)
Theorem get_name_is_last_segment (name : string) :
  (∃ prefix, name = prefix +:+ get_name name ∧
             (prefix = "" ∨ endswith_slash prefix = true)) ∧
  has_slash (get_name name) = false ∧
  String.concat "/" (split_slash name) = name.
Proof.
  split; [|split; [apply get_name_no_slash|]].
  - induction name as [|c s (p & Hp & Hend)]; [by exists ""; auto|].
    rewrite get_name_cons. destruct (Ascii.eqb_spec c "/"%char) as [->|Hc].
    + exists (String "/"%char p). split; [simpl; by rewrite <- Hp|]. right.
      destruct Hend as [->|Hend]; [done|].
      rewrite endswith_slash_cons; [done|by apply endswith_slash_nonempty].
    + rewrite orb_false_l. destruct (has_slash s) eqn:Hs.
      * exists (String c p). split; [simpl; by rewrite <- Hp|]. right.
        destruct Hend as [->|Hend].
        { simpl in Hp. rewrite Hp, get_name_no_slash in Hs. done. }
        rewrite endswith_slash_cons; [done|by apply endswith_slash_nonempty].
      * exists "". auto.
  - induction name as [|c s IH]; [done|]. simpl.
    destruct (Ascii.eqb_spec c "/"%char) as [->|Hc].
    + destruct (split_slash s) as [|h t] eqn:Hsp.
      { by destruct (split_slash_nonempty s). }
      simpl in *. by rewrite IH.
    + destruct (split_slash s) as [|h t] eqn:Hsp.
      { by destruct (split_slash_nonempty s). }
      destruct t; simpl in *; by rewrite <- IH.
Qed.

Lemma endswith_slash_app (p s : string) :
  s ≠ "" → endswith_slash (p +:+ s) = endswith_slash s.
Proof.
  intros Hs. induction p as [|c p IH]; [done|].
  change (String c p +:+ s) with (String c (p +:+ s)).
  rewrite endswith_slash_cons; [done|]. destruct p; [done|]. done.
Qed.

Lemma endswith_slash_has_slash (s : string) :
  endswith_slash s = true → has_slash s = true.
Proof.
  induction s as [|c s IH]; [done|]. destruct s as [|a s'].
  - simpl. by intros ->.
  - rewrite endswith_slash_cons by done. intros H.
    change (has_slash (String c (String a s')))
      with (Ascii.eqb c "/"%char || has_slash (String a s')).
    rewrite (IH H). by rewrite orb_true_r.
Qed.

Lemma target_path_name (directory file_name : string) :
  has_slash file_name = false →
  get_name (_get_remote_target_path directory file_name) = file_name.
Proof.
  intros Hn. unfold _get_remote_target_path, get_name. simpl.
  rewrite split_slash_app, (split_slash_no_slash _ Hn). by rewrite last_snoc.
Qed.

Lemma target_path_is_file (directory file_name : string) :
  has_slash file_name = false → file_name ≠ "" →
  is_file (_get_remote_target_path directory file_name) = true.
Proof.
  intros Hn Hne. unfold _get_remote_target_path, is_file.
  rewrite endswith_slash_app by done.
  change ("/" +:+ file_name) with (String "/"%char file_name).
  rewrite endswith_slash_cons by done.
  destruct (endswith_slash file_name) eqn:He; [|done].
  apply endswith_slash_has_slash in He. congruence.
Qed.

(** X5. What [upload_to_remote] writes, [get_remote_file_names] reads
    back: for a file name without slash, the last segment of its remote
    target path is the name itself, and unless the name is empty the path
    counts as a file. *)
Theorem get_name_of_target_path (directory file_name : string) :
  has_slash file_name = false →
  get_name (_get_remote_target_path directory file_name) = file_name ∧
  (file_name ≠ "" → is_file (_get_remote_target_path directory file_name) = true).
Proof.
  intros Hn. split.
  - by apply target_path_name.
  - intros Hne. by apply target_path_is_file.
Qed.

Lemma get_name_of_target_path_witness :
  has_slash "a-1.0.tar.gz" = false ∧
  get_name (_get_remote_target_path "packages/" "a-1.0.tar.gz") = "a-1.0.tar.gz" ∧
  is_file (_get_remote_target_path "packages/" "a-1.0.tar.gz") = true.
Proof.
  split; [reflexivity|].
  destruct (get_name_of_target_path "packages/" "a-1.0.tar.gz" eq_refl) as [H1 H2].
  split; [exact H1|]. apply H2. discriminate.
Defined.

(** X6. The blobs [is_file] rejects are exactly the non-empty names whose
    last segment is empty: the directory markers. *)
Theorem is_file_false_iff (name : string) :
  is_file name = false ↔ name ≠ "" ∧ get_name name = "".
Proof.
  unfold is_file. rewrite negb_false_iff.
  induction name as [|c s IH]; simpl.
  - split; [done|]. by intros [? _].
  - rewrite get_name_cons. destruct s as [|a s'].
    + simpl. destruct (Ascii.eqb c "/"%char); simpl; split; try done.
      by intros [_ ?].
    + rewrite IH. split.
      * intros [_ Hg].
        destruct (Ascii.eqb c "/"%char || has_slash (String a s')) eqn:Hs; [done|].
        apply orb_false_elim in Hs as [_ Hs].
        pose proof (get_name_cons a s') as Hc. rewrite Hg in Hc.
        simpl in Hs. rewrite Hs in Hc. done.
      * intros [_ Hg]. split; [done|].
        by destruct (Ascii.eqb c "/"%char || has_slash (String a s')).
Qed.

(** * The managers *)

Section Managers.

Context {W : Type}.
Variable order : set_order.
Variable os : OS W.
Variable gcs : GCS W.

Implicit Types (st : Store W) (d : Driver (W := W)).

(** ** What keeps the snapshot, what never raises *)

Lemma keeps_ret {A} (a : A) : keeps_snapshot (W := W) (ret a).
Proof. done. Qed.

Lemma keeps_raise {A} (e : exn) : keeps_snapshot (W := W) (A := A) (raise e).
Proof. done. Qed.

Lemma keeps_emit (r : log_record) : keeps_snapshot (W := W) (emit r).
Proof. done. Qed.

Lemma keeps_syscall {A} (f : W → outcome A * W) : keeps_snapshot (syscall f).
Proof. intros st. unfold syscall. by destruct (f (world st)). Qed.

Lemma keeps_bind {A B} (m : M (W := W) A) (k : A → M B) :
  keeps_snapshot m → (∀ a, keeps_snapshot (k a)) → keeps_snapshot (bind m k).
Proof.
  intros Hm Hk st. unfold bind. specialize (Hm st).
  destruct (m st) as [[a|e] st1]; simpl in *; [|done].
  by rewrite Hk.
Qed.

Lemma keeps_try_except {A} (m : M (W := W) A) (h : exn → M A) :
  keeps_snapshot m → (∀ e, keeps_snapshot (h e)) → keeps_snapshot (try_except m h).
Proof.
  intros Hm Hh st. unfold try_except. specialize (Hm st).
  destruct (m st) as [[a|e] st1]; simpl in *; [done|].
  by rewrite Hh.
Qed.

Lemma keeps_comprehension {A B} (f : A → M (W := W) B) (l : list A) :
  (∀ x, keeps_snapshot (f x)) → keeps_snapshot (comprehension f l).
Proof.
  intros Hf. induction l as [|x l IH]; [done|].
  simpl. apply keeps_bind; [done|]. intros b.
  apply keeps_bind; [done|]. intros bs. apply keeps_ret.
Qed.

Ltac keeps :=
  repeat lazymatch goal with
  | |- keeps_snapshot (ret _) => apply keeps_ret
  | |- keeps_snapshot (raise _) => apply keeps_raise
  | |- keeps_snapshot (emit _) => apply keeps_emit
  | |- keeps_snapshot (syscall _) => apply keeps_syscall
  | |- keeps_snapshot (comprehension _ _) => apply keeps_comprehension; intros
  | |- keeps_snapshot (try_except _ _) => apply keeps_try_except; [|intros]
  | |- keeps_snapshot (bind _ _) => apply keeps_bind; [|intros]
  | |- keeps_snapshot ((let _ := _ in _) _) => cbv zeta
  | |- keeps_snapshot (let _ := _ in _) => cbv zeta
  end.

(** ** The per-file operations *)

(** X7. The three per-file operations of [LocalFileStoreManager] never
    raise.  Each makes its one library call on the target paths and
    returns [True] when the call returned and [False] when it raised;
    beside the effect of that call it only logs one debug record. *)
Theorem local_file_operations (local_directory remote_directory file_name : string) st :
  let d := LocalFileStoreManager os local_directory remote_directory in
  let remote := _get_remote_target_path remote_directory file_name in
  let local := _get_local_target_path local_directory file_name in
  remove_from_remote d file_name st =
    (Return (is_return (os_remove os remote (world st)).1),
     mkStore (os_remove os remote (world st)).2
             (logs st ++ [LogRecord DEBUG "{} -> x" [PStr remote]])
             (current_local_contents st)) ∧
  copy_from_remote d file_name st =
    (Return (is_return (shutil_copy os remote local (world st)).1),
     mkStore (shutil_copy os remote local (world st)).2
             (logs st ++ [LogRecord DEBUG "{} -> {}" [PStr remote; PStr local]])
             (current_local_contents st)) ∧
  upload_to_remote d file_name st =
    (Return (is_return (shutil_copy os local remote (world st)).1),
     mkStore (shutil_copy os local remote (world st)).2
             (logs st ++ [LogRecord DEBUG "{} -> {}" [PStr local; PStr remote]])
             (current_local_contents st)).
Proof.
  intros d remote local. subst d remote local. repeat split.
  - simpl. unfold _remove_file. run.
    by destruct (os_remove os _ (world st)) as [[[]|e] w1].
  - simpl. unfold _copy_file. run.
    by destruct (shutil_copy os _ _ (world st)) as [[[]|e] w1].
  - simpl. unfold _copy_file. run.
    by destruct (shutil_copy os _ _ (world st)) as [[[]|e] w1].
Qed.

(** X8. The three per-file operations of the bucket-backed manager never
    raise either.  Each first asks for the bucket; it returns [True] only
    when both that call and the blob operation returned, and [False] when
    either raised. *)
Theorem cloud_file_operations (bucket_name local_directory remote_directory
    file_name : string) st :
  let d := LocalToGoogleCloudStorageFileStoreManager os gcs bucket_name
             local_directory remote_directory in
  let remote := _get_remote_target_path remote_directory file_name in
  let local := _get_local_target_path local_directory file_name in
  let through (record : log_record)
        (operation : bucket_handle gcs → W → outcome unit * W) :=
    match get_bucket gcs bucket_name (world st) with
    | (Return b, w1) =>
        (Return (is_return (operation b w1).1),
         mkStore (operation b w1).2 (logs st ++ [record]) (current_local_contents st))
    | (Raise _, w1) =>
        (Return false, mkStore w1 (logs st ++ [record]) (current_local_contents st))
    end in
  remove_from_remote d file_name st =
    through (LogRecord DEBUG "{} -> x" [PStr remote])
            (λ b, blob_delete gcs b remote) ∧
  copy_from_remote d file_name st =
    through (LogRecord DEBUG "r: {} -> l: {}" [PStr remote; PStr local])
            (λ b, download_to_filename gcs b remote local) ∧
  upload_to_remote d file_name st =
    through (LogRecord DEBUG "l: {} -> r: {}" [PStr local; PStr remote])
            (λ b, upload_from_filename gcs b remote local).
Proof.
  intros d remote local through. subst d remote local through. repeat split.
  - simpl. unfold _remove_remote_file, bucket. run.
    destruct (get_bucket gcs bucket_name (world st)) as [[b|e] w1]; [|done].
    simpl. by destruct (blob_delete gcs b _ w1) as [[[]|e] w2].
  - simpl. unfold _download_file, bucket. run.
    destruct (get_bucket gcs bucket_name (world st)) as [[b|e] w1]; [|done].
    simpl. by destruct (download_to_filename gcs b _ _ w1) as [[[]|e] w2].
  - simpl. unfold _upload_file, bucket. run.
    destruct (get_bucket gcs bucket_name (world st)) as [[b|e] w1]; [|done].
    simpl. by destruct (upload_from_filename gcs b _ _ w1) as [[[]|e] w2].
Qed.

Lemma local_catches_all (local_directory remote_directory : string) :
  catches_all (LocalFileStoreManager os local_directory remote_directory).
Proof.
  repeat split; intros n st; simpl; unfold _copy_file, _remove_file; run.
  - by destruct (os_remove os _ (world st)) as [[[]|e] w1].
  - by destruct (shutil_copy os _ _ (world st)) as [[[]|e] w1].
  - by destruct (shutil_copy os _ _ (world st)) as [[[]|e] w1].
Qed.

Lemma cloud_catches_all (bucket_name local_directory remote_directory : string) :
  catches_all (LocalToGoogleCloudStorageFileStoreManager os gcs bucket_name
                 local_directory remote_directory).
Proof.
  repeat split; intros n st; simpl;
    unfold _download_file, _upload_file, _remove_remote_file, bucket; run;
    (destruct (get_bucket gcs bucket_name (world st)) as [[b|e] w1]; [|done]); simpl.
  - by destruct (blob_delete gcs b _ w1) as [[[]|e] w2].
  - by destruct (download_to_filename gcs b _ _ w1) as [[[]|e] w2].
  - by destruct (upload_from_filename gcs b _ _ w1) as [[[]|e] w2].
Qed.

Lemma local_keeps_snapshot (local_directory remote_directory : string) :
  driver_keeps_snapshot (LocalFileStoreManager os local_directory remote_directory).
Proof.
  repeat split; [| |intros n|intros n|intros n];
    cbn [get_remote_file_names get_local_file_listing remove_from_remote
         copy_from_remote upload_to_remote LocalFileStoreManager];
    unfold _copy_file, _remove_file, mbind, M_bind, mret, M_ret,
      LOGGER_debug; keeps.
Qed.

Lemma cloud_keeps_snapshot (bucket_name local_directory remote_directory : string) :
  driver_keeps_snapshot (LocalToGoogleCloudStorageFileStoreManager os gcs bucket_name
                           local_directory remote_directory).
Proof.
  repeat split; [| |intros n|intros n|intros n];
    cbn [get_remote_file_names get_local_file_listing remove_from_remote
         copy_from_remote upload_to_remote LocalToGoogleCloudStorageFileStoreManager];
    unfold _download_file, _upload_file, _remove_remote_file, bucket,
      mbind, M_bind, mret, M_ret, LOGGER_debug; keeps.
Qed.

Lemma built_driver_catches_all (settings : GlobalSettings) :
  catches_all (build_driver os gcs settings).
Proof.
  unfold build_driver. destruct (RUNNING_DEV settings);
    [apply local_catches_all | apply cloud_catches_all].
Qed.

Lemma built_driver_keeps_snapshot (settings : GlobalSettings) :
  driver_keeps_snapshot (build_driver os gcs settings).
Proof.
  unfold build_driver. destruct (RUNNING_DEV settings);
    [apply local_keeps_snapshot | apply cloud_keeps_snapshot].
Qed.

(** ** Enumerating the bucket *)

(** X9. [get_remote_file_names] of the bucket-backed manager.  When the
    blobs under the prefix can be listed, it returns the set of the last
    segments of the blob names that do not end with a slash, so no
    returned name holds a slash, and a file name the manager uploaded is
    found again.  When listing raises, the exception is passed on and
    nothing is logged. *)
Theorem cloud_get_remote_file_names (bucket_name local_directory remote_directory
    : string) st :
  let d := LocalToGoogleCloudStorageFileStoreManager os gcs bucket_name
             local_directory remote_directory in
  match list_blobs gcs bucket_name (sync_directory_path remote_directory) (world st) with
  | (Return blobs, w1) =>
      ∃ names : gset string,
        get_remote_file_names d st =
          (Return names,
           mkStore w1 (logs st ++ [LogRecord DEBUG "{}" [PSet names]])
                   (current_local_contents st)) ∧
        (∀ n, n ∈ names ↔ ∃ k, k ∈ blobs ∧ is_file k = true ∧ n = get_name k) ∧
        (∀ n, n ∈ names → has_slash n = false) ∧
        (∀ n, has_slash n = false → n ≠ "" →
              _get_remote_target_path remote_directory n ∈ blobs → n ∈ names)
  | (Raise e, w1) =>
      get_remote_file_names d st =
        (Raise e, mkStore w1 (logs st) (current_local_contents st))
  end.
Proof.
  intros d. subst d. simpl. run.
  destruct (list_blobs gcs bucket_name (sync_directory_path remote_directory) (world st))
    as [[blobs|e] w1]; [|done].
  simpl. eexists. split; [done|].
  assert (Hin : ∀ n, n ∈ (list_to_set (get_name <$> List.filter is_file blobs) : gset string)
                     ↔ ∃ k, k ∈ blobs ∧ is_file k = true ∧ n = get_name k).
  { intros n. rewrite elem_of_list_to_set, list_elem_of_fmap. split.
    - intros (k & -> & Hk). apply list_elem_of_In, filter_In in Hk as [Hk Hf].
      exists k. by rewrite list_elem_of_In.
    - intros (k & Hk & Hf & ->). exists k. split; [done|].
      apply list_elem_of_In, filter_In. by rewrite <- list_elem_of_In. }
  split; [done|]. split.
  - intros n (k & _ & _ & ->)%Hin. apply get_name_no_slash.
  - intros n Hn Hne Hk. apply Hin. eexists. split; [done|].
    by rewrite target_path_name, target_path_is_file.
Qed.

(** ** Pulling with any manager *)

(** X10. [pull_all_remote_files] swallows nothing.  It raises [e] exactly
    when enumerating the remote names raised [e], or when the enumeration
    returned and one of the per-name copies raised [e]; either way [e] is
    logged at debug level first and then raised again unchanged. *)
Theorem pull_all_remote_files_raises_iff d st (e : exn) st' :
  pull_all_remote_files order d st = (Raise e, st') ↔
  (∃ st1, get_remote_file_names d st = (Raise e, st1) ∧
          st' = logged st1 [LogRecord DEBUG "{}" [PExn e]]) ∨
  (∃ (names : gset string) st1 st2,
          get_remote_file_names d st = (Return names, st1) ∧
          first_raise (copy_from_remote d) (order names) st1 e st2 ∧
          st' = logged st2 [LogRecord DEBUG "{}" [PExn e]]).
Proof.
  rewrite pull_all_remote_files_unfold.
  destruct (get_remote_file_names d st) as [[names|e1] st1] eqn:Hnames.
  - destruct (comprehension (copy_from_remote d) (order names) st1)
      as [[flags|e2] st2] eqn:Hrun.
    + split; [done|]. intros [(? & [=] & _)|(? & ? & ? & [= <- <-] & Hraise & _)].
      apply comprehension_first_raise in Hraise. congruence.
    + split.
      * intros [= <- <-]. right. exists names, st1, st2.
        by rewrite <- comprehension_first_raise.
      * intros [(? & [=] & _)|(? & ? & ? & [= <- <-] & Hraise & ->)].
        apply comprehension_first_raise in Hraise. congruence.
  - split.
    + intros [= <- <-]. left. by exists st1.
    + intros [(? & [= <- <-] & ->)|(? & ? & ? & [=] & _)]. done.
Qed.

Lemma comprehension_never_raises {A B} (f : A → M (W := W) B) (l : list A) st :
  (∀ x, never_raises (f x)) →
  ∃ bs st', comprehension f l st = (Return bs, st').
Proof.
  intros Hf. revert st. induction l as [|x l IH]; intros st; [by eexists _, _|].
  rewrite comprehension_cons. specialize (Hf x st).
  destruct (f x st) as [[b|e] st1]; [|done].
  destruct (IH st1) as (bs & st' & ->). by eexists _, _.
Qed.

(** X11. With the manager the configuration builds, local or
    bucket-backed, [pull_all_remote_files] raises only when enumerating
    the remote names raises.  Otherwise every per-name copy returns and
    the method returns their flags, one per remote name. *)
Theorem pull_all_remote_files_of_built_driver (settings : GlobalSettings) st :
  let d := build_driver os gcs settings in
  match get_remote_file_names d st with
  | (Return names, st1) =>
      ∃ (flags : list bool) st2,
        pull_all_remote_files order d st =
          (Return flags, logged st2 [LogRecord DEBUG "{}" [PBools flags]]) ∧
        all_return (copy_from_remote d) (order names) st1 flags st2 ∧
        length flags = size names
  | (Raise e, st1) =>
      pull_all_remote_files order d st =
        (Raise e, logged st1 [LogRecord DEBUG "{}" [PExn e]])
  end.
Proof.
  intros d. rewrite pull_all_remote_files_unfold.
  destruct (get_remote_file_names d st) as [[names|e] st1]; [|done].
  destruct (comprehension_never_raises (copy_from_remote d) (order names) st1)
    as (flags & st2 & Hrun).
  { apply (built_driver_catches_all settings). }
  rewrite Hrun. exists flags, st2. split; [done|].
  apply comprehension_all_return in Hrun. split; [done|].
  by rewrite (all_return_length _ _ _ _ _ Hrun), order_length.
Qed.

(** ** Processing events *)

Lemma handle_never_raises d (s : gset string) :
  catches_all d →
  (∀ x, never_raises (handle (RemovalChangeEvent d s) x)) ∧
  (∀ x, never_raises (handle (AdditionChangeEvent d s) x)).
Proof.
  intros (Hr & _ & Hu). split; intros x st; simpl; run.
  - apply Hr.
  - apply Hu.
Qed.

Lemma process_true_of_catching d (s : gset string) st :
  catches_all d →
  (process order (RemovalChangeEvent d s) st).1 = Return true ∧
  (process order (AdditionChangeEvent d s) st).1 = Return true.
Proof.
  intros Hd. destruct (handle_never_raises d s Hd) as [Hr Hu].
  rewrite !process_unfold. cbn [difference]. split.
  - by destruct (comprehension_never_raises
                   (handle (RemovalChangeEvent d s)) (order s) st Hr)
      as (bs & st' & ->).
  - by destruct (comprehension_never_raises
                   (handle (AdditionChangeEvent d s)) (order s) st Hu)
      as (bs & st' & ->).
Qed.

Lemma truthy_true (v : option (gset string)) :
  truthy v = true → ∃ s, v = Some s ∧ s ≠ ∅.
Proof.
  destruct v as [s|]; simpl; [|done]. intros H. exists s. split; [done|].
  intros ->. by rewrite bool_decide_eq_true_2 in H.
Qed.

(** X12. With the manager the configuration builds, an event never
    reports failure: [process] returns [True] for every removal and every
    addition event, whatever happens to the files, and when
    [sync_data_after_change] returns, the results it logged are
    [[True, True]]. *)
Theorem events_of_built_driver_report_success (settings : GlobalSettings)
    (s : gset string) st :
  let d := build_driver os gcs settings in
  (process order (RemovalChangeEvent d s) st).1 = Return true ∧
  (process order (AdditionChangeEvent d s) st).1 = Return true ∧
  ∀ st', sync_data_after_change order (build_plugin os gcs settings) st = (Return tt, st') →
         ∃ st2, st' = logged st2 [LogRecord DEBUG "Handled events: {}"
                                            [PBools [true; true]];
                                  LogRecord INFO "Done!" []].
Proof.
  intros d. pose proof (built_driver_catches_all settings) as Hd. fold d in Hd.
  destruct (process_true_of_catching d s st Hd) as [Hr Hu].
  split; [done|]. split; [done|]. intros st'.
  rewrite sync_data_after_change_unfold.
  set (st0 := logged st _). set (self := storage_client _).
  destruct (truthy (current_local_contents st0)) eqn:Ht.
  - apply truthy_true in Ht as (s0 & Hst & Hs0).
    destruct (get_local_file_listing (_file_storage self) st0)
      as [[c|e] st1] eqn:Hls.
    + destruct (process_true_of_catching d (s0 ∖ c)
                  (logged st1 (diff_records s0 c)) Hd) as [H1 _].
      destruct (process order (RemovalChangeEvent d (s0 ∖ c))
                  (logged st1 (diff_records s0 c))) as [o1 st2] eqn:Hp1.
      simpl in H1. subst o1.
      destruct (process_true_of_catching d (c ∖ s0) st2 Hd) as [_ H2].
      destruct (process order (AdditionChangeEvent d (c ∖ s0)) st2)
        as [o2 st3] eqn:Hp2.
      simpl in H2. subst o2.
      rewrite (for_in_at_start _ self st0 s0 c st1 true st2 true st3); try done.
      intros [= <-]. by exists st3.
    + by rewrite (for_in_listing_raises _ self st0 s0 e st1).
  - by rewrite for_in_unstored.
Qed.

(** X13. An event of the base class, whose [handle] is not implemented,
    reports success exactly when it has nothing to handle: [process]
    returns [True] for the empty name set and [False] for every other. *)
Theorem process_of_base_event (s : gset string) st :
  (process order (BaseChangeEvent s) st).1 = Return (bool_decide (s = ∅)).
Proof.
  rewrite process_unfold. simpl difference. case_bool_decide as Hs.
  - subst s. by rewrite order_empty.
  - destruct (order s) as [|x l] eqn:Ho; [|done].
    exfalso. apply Hs, leibniz_equiv, size_empty_inv.
    by rewrite <- (order_length order), Ho.
Qed.

Lemma handle_removal_local (local_directory remote_directory : string)
    (s : gset string) (n : string) st :
  ∃ records,
    handle (RemovalChangeEvent
              (LocalFileStoreManager os local_directory remote_directory) s) n st =
      (Return (is_return (os_remove os (_get_remote_target_path remote_directory n)
                                    (world st)).1),
       mkStore (os_remove os (_get_remote_target_path remote_directory n) (world st)).2
               (logs st ++ records) (current_local_contents st)).
Proof.
  simpl. unfold _remove_file. run.
  destruct (os_remove os _ (world st)) as [[[]|e] w1]; simpl;
    eexists; by rewrite <- app_assoc.
Qed.

Lemma handle_addition_local (local_directory remote_directory : string)
    (s : gset string) (n : string) st :
  ∃ records,
    handle (AdditionChangeEvent
              (LocalFileStoreManager os local_directory remote_directory) s) n st =
      (Return (is_return (shutil_copy os (_get_local_target_path local_directory n)
                                      (_get_remote_target_path remote_directory n)
                                      (world st)).1),
       mkStore (shutil_copy os (_get_local_target_path local_directory n)
                            (_get_remote_target_path remote_directory n) (world st)).2
               (logs st ++ records) (current_local_contents st)).
Proof.
  simpl. unfold _copy_file. run.
  destruct (shutil_copy os _ _ (world st)) as [[[]|e] w1]; simpl;
    eexists; by rewrite <- app_assoc.
Qed.

Lemma removal_run_local (local_directory remote_directory : string)
    (s : gset string) (names : list string) st :
  let d := LocalFileStoreManager os local_directory remote_directory in
  let calls :=
    each_call (λ n, os_remove os (_get_remote_target_path remote_directory n))
              names (world st) in
  ∃ records,
    comprehension (handle (RemovalChangeEvent d s)) names st =
      (Return calls.1,
       mkStore calls.2 (logs st ++ records) (current_local_contents st)).
Proof.
  intros d calls. subst d calls. revert st.
  induction names as [|n names IH]; intros st.
  - exists []. destruct st. simpl. unfold ret. by rewrite app_nil_r.
  - rewrite comprehension_cons.
    destruct (handle_removal_local local_directory remote_directory s n st)
      as (r1 & ->).
    match goal with |- context [comprehension _ names ?st1] =>
      destruct (IH st1) as (r2 & ->) end.
    simpl. destruct (os_remove os _ (world st)) as [o w1]. simpl.
    destruct (each_call _ names w1) as [bs w2]. simpl.
    eexists. by rewrite <- app_assoc.
Qed.

Lemma addition_run_local (local_directory remote_directory : string)
    (s : gset string) (names : list string) st :
  let d := LocalFileStoreManager os local_directory remote_directory in
  let calls :=
    each_call (λ n, shutil_copy os (_get_local_target_path local_directory n)
                                   (_get_remote_target_path remote_directory n))
              names (world st) in
  ∃ records,
    comprehension (handle (AdditionChangeEvent d s)) names st =
      (Return calls.1,
       mkStore calls.2 (logs st ++ records) (current_local_contents st)).
Proof.
  intros d calls. subst d calls. revert st.
  induction names as [|n names IH]; intros st.
  - exists []. destruct st. simpl. unfold ret. by rewrite app_nil_r.
  - rewrite comprehension_cons.
    destruct (handle_addition_local local_directory remote_directory s n st)
      as (r1 & ->).
    match goal with |- context [comprehension _ names ?st1] =>
      destruct (IH st1) as (r2 & ->) end.
    simpl. destruct (shutil_copy os _ _ (world st)) as [o w1]. simpl.
    destruct (each_call _ names w1) as [bs w2]. simpl.
    eexists. by rewrite <- app_assoc.
Qed.

(** X14. What processing an event through [LocalFileStoreManager] does to
    the files: a removal event makes one [os.remove] per name, on the
    remote path of the name; an addition event makes one [shutil.copy]
    per name, from its local path to its remote path.  The calls are made
    in iteration order, a failed call does not stop the following ones,
    and the event reports [True] in every case. *)
Theorem process_through_local_manager (local_directory remote_directory : string)
    (s : gset string) st :
  let d := LocalFileStoreManager os local_directory remote_directory in
  let removals :=
    each_call (λ n, os_remove os (_get_remote_target_path remote_directory n))
              (order s) (world st) in
  let uploads :=
    each_call (λ n, shutil_copy os (_get_local_target_path local_directory n)
                                   (_get_remote_target_path remote_directory n))
              (order s) (world st) in
  (process order (RemovalChangeEvent d s) st).1 = Return true ∧
  world (process order (RemovalChangeEvent d s) st).2 = removals.2 ∧
  (process order (AdditionChangeEvent d s) st).1 = Return true ∧
  world (process order (AdditionChangeEvent d s) st).2 = uploads.2.
Proof.
  intros d removals uploads. subst d removals uploads.
  rewrite !process_unfold. cbn [difference].
  destruct (removal_run_local local_directory remote_directory s (order s) st)
    as (r1 & ->).
  destruct (addition_run_local local_directory remote_directory s (order s) st)
    as (r2 & ->).
  done.
Qed.

(** ** Who writes the snapshot *)

Lemma keeps_get_last_local_snapshot (self : StorageClient (W := W)) :
  keeps_snapshot (get_last_local_snapshot self).
Proof.
  unfold get_last_local_snapshot, mbind, M_bind.
  apply keeps_bind; [done|]. intros v.
  destruct (negb (truthy v)); [apply keeps_raise | apply keeps_ret].
Qed.

Lemma keeps_process_of d (s : gset string) :
  driver_keeps_snapshot d →
  keeps_snapshot (process order (RemovalChangeEvent d s)) ∧
  keeps_snapshot (process order (AdditionChangeEvent d s)).
Proof.
  intros (_ & _ & Hr & _ & Hu).
  split; unfold process, handle, mbind, M_bind, mret, M_ret,
    LOGGER_debug, LOGGER_error; keeps; done.
Qed.

Lemma keeps_next (g : generator (W := W)) :
  driver_keeps_snapshot (_file_storage (gen_self g)) → keeps_snapshot (next g).
Proof.
  intros (_ & Hl & _). destruct g as [self fr]. destruct fr; unfold next; simpl.
  - unfold mbind, M_bind, mret, M_ret, LOGGER_debug.
    apply keeps_bind; [apply keeps_get_last_local_snapshot|]. intros s.
    apply keeps_bind; [done|]. intros c. keeps.
  - apply keeps_ret.
  - apply keeps_ret.
  - apply keeps_ret.
Qed.

Lemma next_event (g : generator (W := W)) st ev g' st1 :
  next g st = (Return (Some ev, g'), st1) →
  gen_self g' = gen_self g ∧
  ∃ s, ev = RemovalChangeEvent (_file_storage (gen_self g)) s ∨
       ev = AdditionChangeEvent (_file_storage (gen_self g)) s.
Proof.
  destruct g as [self fr]. destruct fr; unfold next; simpl.
  - run. destruct (get_last_local_snapshot self st) as [[s|e] st2]; [|done].
    destruct (get_local_contents self st2) as [[c|e] st3]; [|done].
    intros [= <- <- _]. eauto.
  - intros [= <- <- _]. eauto.
  - done.
  - done.
Qed.

Lemma keeps_iterate (n : nat) (g : generator (W := W)) :
  driver_keeps_snapshot (_file_storage (gen_self g)) →
  keeps_snapshot (iterate n (client_upload_to_remote order (gen_self g)) g).
Proof.
  intros Hd. revert g Hd. induction n as [|n IH]; intros g Hd st; [done|].
  rewrite iterate_S. pose proof (keeps_next g Hd st) as Hnext.
  destruct (next g st) as [[[[ev|] g']|e] st1] eqn:Hn; simpl in Hnext; [|done..].
  apply next_event in Hn as (Hself & s & Hev).
  assert (keeps_snapshot (client_upload_to_remote order (gen_self g) ev)) as Hp.
  { unfold client_upload_to_remote.
    destruct (keeps_process_of _ s Hd) as [Hr Hu]. by destruct Hev as [->| ->]. }
  specialize (Hp st1).
  destruct (client_upload_to_remote order (gen_self g) ev st1) as [[b|e] st2];
    simpl in *; [|congruence].
  rewrite <- Hself in Hd. specialize (IH g' Hd st2). rewrite Hself in IH.
  destruct (iterate n _ g' st2) as [[bs|e] st3]; simpl in *; congruence.
Qed.

Lemma keeps_pull_all_remote_files d :
  driver_keeps_snapshot d → keeps_snapshot (pull_all_remote_files order d).
Proof.
  intros (Hn & _ & _ & Hc & _).
  unfold pull_all_remote_files, mbind, M_bind, mret, M_ret, LOGGER_debug;
    keeps; done.
Qed.

(** X15. Only [store_local_snapshot] writes the snapshot.  With the
    manager the configuration builds, [sync_data_after_change] and
    [pull_remote_files] leave the stored snapshot as it was, whether they
    return or raise; so a second [sync_data_after_change] compares
    against the same snapshot as the first. *)
Theorem snapshot_written_by_store_only (settings : GlobalSettings) st :
  let plugin := build_plugin os gcs settings in
  current_local_contents (sync_data_after_change order plugin st).2 =
    current_local_contents st ∧
  current_local_contents (pull_remote_files order (storage_client plugin) st).2 =
    current_local_contents st.
Proof.
  intros plugin. pose proof (built_driver_keeps_snapshot settings) as Hd. split.
  - rewrite sync_data_after_change_unfold.
    pose proof (keeps_iterate 3 (mkGenerator (storage_client plugin) AtStart) Hd
                  (logged st [LogRecord INFO "Syncronizing data after request handling" []]))
      as Hk.
    unfold for_in. simpl calls_left. simpl gen_self in Hk.
    by destruct (iterate 3 _ _ _) as [[bs|e] st'].
  - apply (keeps_pull_all_remote_files _ Hd).
Qed.

(** ** The hooks *)

Lemma sync_data_before_change_unfold (self : SynchronizerPlugin (W := W)) st :
  let d := _file_storage (storage_client self) in
  sync_data_before_change order self st =
  match pull_all_remote_files order d
          (logged st [LogRecord INFO "Checking out newest remote state" []]) with
  | (Raise e, st1) => (Raise e, st1)
  | (Return _, st1) =>
      match get_local_file_listing d st1 with
      | (Raise e, st2) => (Raise e, st2)
      | (Return contents, st2) =>
          match get_local_file_listing d
                  (mkStore (world st2) (logs st2) (Some contents)) with
          | (Raise e, st3) => (Raise e, st3)
          | (Return shown, st3) =>
              (Return tt,
               logged st3 [LogRecord DEBUG "{}" [PSet shown];
                           LogRecord INFO "Ready to process!" []])
          end
      end
  end.
Proof.
  intros d. unfold sync_data_before_change, pull_remote_files, store_local_snapshot,
    get_local_contents.
  unfold mbind, M_bind, LOGGER_info, LOGGER_debug, emit, write_snapshot.
  unfold bind at 1. unfold bind at 1. fold d.
  fold (logged st [LogRecord INFO "Checking out newest remote state" []]).
  destruct (pull_all_remote_files order d _) as [[flags|e] st1]; [|done].
  unfold bind at 1. unfold bind at 1.
  destruct (get_local_file_listing d st1) as [[contents|e] st2]; [|done].
  unfold bind at 1.
  destruct (get_local_file_listing d _) as [[shown|e] st3]; [|done].
  unfold bind, logged. simpl. by rewrite <- app_assoc.
Qed.

(** X16. [sync_data_before_change] with the manager the configuration
    builds.  If the pull raises, or the local listing that follows it
    raises, the hook raises that exception and the client keeps the
    snapshot it had.  Once that listing returned a set, the set is the
    stored snapshot when the hook ends, whether the hook returns or its
    last listing, made for the debug record, raises. *)
Theorem sync_data_before_change_snapshot (settings : GlobalSettings) st :
  let plugin := build_plugin os gcs settings in
  let d := build_driver os gcs settings in
  let st0 := logged st [LogRecord INFO "Checking out newest remote state" []] in
  match pull_all_remote_files order d st0 with
  | (Raise e, st1) =>
      sync_data_before_change order plugin st = (Raise e, st1) ∧
      current_local_contents st1 = current_local_contents st
  | (Return _, st1) =>
      match get_local_file_listing d st1 with
      | (Raise e, st2) =>
          sync_data_before_change order plugin st = (Raise e, st2) ∧
          current_local_contents st2 = current_local_contents st
      | (Return contents, st2) =>
          current_local_contents (sync_data_before_change order plugin st).2 =
            Some contents
      end
  end.
Proof.
  intros plugin d st0.
  pose proof (built_driver_keeps_snapshot settings) as Hd. fold d in Hd.
  pose proof (keeps_pull_all_remote_files d Hd st0) as Hpull.
  destruct Hd as (_ & Hl & _).
  rewrite (sync_data_before_change_unfold plugin st).
  change (_file_storage (storage_client plugin)) with d. fold st0.
  destruct (pull_all_remote_files order d st0) as [[flags|e] st1]; simpl in Hpull;
    [|done].
  pose proof (Hl st1) as Hl1.
  destruct (get_local_file_listing d st1) as [[contents|e] st2]; simpl in Hl1;
    [|split; [done|congruence]].
  pose proof (Hl (mkStore (world st2) (logs st2) (Some contents))) as Hl3.
  by destruct (get_local_file_listing d _) as [[shown|e] st3].
Qed.

(** X17. What a loop over [get_change_events] can see.  Either it sees
    exactly two events, the removal of [s ∖ c] and then the addition of
    [c ∖ s], where [s] is the stored snapshot and [c] the current
    listing; the two name sets are disjoint and turn [s] into [c].  Or it
    raises before any event: the [ValueError] when no non-empty snapshot
    is stored, else the exception of the local listing. *)
Theorem change_events_seen (self : StorageClient (W := W)) st :
  let d := _file_storage self in
  match for_in ret (mkGenerator self AtStart) st with
  | (Return events, st') =>
      ∃ (s c : gset string) st1,
        current_local_contents st = Some s ∧
        get_local_file_listing d st = (Return c, st1) ∧
        events = [RemovalChangeEvent d (s ∖ c); AdditionChangeEvent d (c ∖ s)] ∧
        (s ∖ c) ## (c ∖ s) ∧ (s ∖ (s ∖ c)) ∪ (c ∖ s) = c ∧
        st' = logged st1 (diff_records s c)
  | (Raise e, st') =>
      (truthy (current_local_contents st) = false ∧
       e = ValueError "Local snapshot have not been stored!" ∧ st' = st) ∨
      (truthy (current_local_contents st) = true ∧
       get_local_file_listing d st = (Raise e, st'))
  end.
Proof.
  intros d. destruct (truthy (current_local_contents st)) eqn:Ht.
  - destruct (truthy_true _ Ht) as (s & Hst & Hs).
    destruct (get_local_file_listing d st) as [[c|e] st1] eqn:Hls.
    + rewrite (for_in_at_start ret self st s c st1 _ _ _ _ Hst Hs Hls eq_refl eq_refl).
      exists s, c, st1. repeat split; try done.
      * intros x. rewrite !elem_of_difference. tauto.
      * apply set_eq. intros x. rewrite elem_of_union, !elem_of_difference.
        destruct (decide (x ∈ s)), (decide (x ∈ c)); tauto.
    + rewrite (for_in_listing_raises ret self st s e st1 Hst Hs Hls). by right.
  - rewrite (for_in_unstored ret self st Ht). by left.
Qed.

(** X18. Trailing slashes in the configured directories change nothing
    of what [LocalFileStoreManager] does: every method behaves as with
    the directories written without them. *)
Theorem local_manager_ignores_trailing_slashes (local_directory remote_directory
    file_name : string) (k m : nat) st :
  let d := LocalFileStoreManager os local_directory remote_directory in
  let d' := LocalFileStoreManager os (local_directory +:+ slashes k)
              (remote_directory +:+ slashes m) in
  get_remote_file_names d' st = get_remote_file_names d st ∧
  get_local_file_listing d' st = get_local_file_listing d st ∧
  remove_from_remote d' file_name st = remove_from_remote d file_name st ∧
  copy_from_remote d' file_name st = copy_from_remote d file_name st ∧
  upload_to_remote d' file_name st = upload_to_remote d file_name st.
Proof.
  intros d d'. subst d d'.
  cbn [get_remote_file_names get_local_file_listing remove_from_remote
       copy_from_remote upload_to_remote LocalFileStoreManager].
  unfold _get_remote_target_path, _get_local_target_path,
    sync_directory_path, source_directory_path.
  by rewrite !rstrip_slash_app_slashes.
Qed.

End Managers.
